(** * Autonomous DevOps Agent: dashboard logic and healing loop

    A shallow embedding of the dashboard component [App] of
    [frontend/src/App.js] (the score calculator [calculateScore], the
    submit handler [handleRun], the iteration display) and of the
    bounded healing loop that produces the analysis result the dashboard
    shows.

    Numbers.  JavaScript has one number type.  The two fields read by
    [calculateScore] are modelled by what the backend puts in them:
    [total_fixes_applied] is a count, an integer ([Z]);
    [total_time_taken] is a number of seconds with a fractional part
    ([Q]: every finite double is a rational and the comparison with
    [300] is exact).  On integers below [2^53] the double arithmetic of
    the score is exact, so [Z] arithmetic is what the code computes. *)

From Stdlib Require Import ZArith QArith Bool List String Lia.
Import ListNotations.

Local Open Scope Z_scope.

(** * Part I: the program *)

(** ** Data model: the JSON answer of [POST /analyze] *)

Inductive FixStatus := Fixed | Failed.

Inductive RunStatus := PASSED | FAILED | RUNNING.

Inductive BugType := LINTING | SYNTAX | TYPE_ERROR | INDENTATION | IMPORT.

Record Fix := {
  file : string;
  bug_type : BugType;
  line_number : Z;
  commit_message : string;
  fix_detail : string;
  status : FixStatus
}.

Record PipelineRun := {
  run_iteration : Z;
  run_status : RunStatus;
  timestamp : Z
}.

(** [cicd_runs] is read with [?.] in the component: it may be absent. *)
Record AnalysisResult := {
  repo_url : string;
  team_name : string;
  leader_name : string;
  branch_name : string;
  branch_url : string;
  push_status : string;
  token_used : string;
  push_destination : string;
  total_failures_detected : Z;
  total_fixes_applied : Z;
  cicd_status : RunStatus;
  total_iterations : Z;
  total_time_taken : Q;
  fixes : list Fix;
  cicd_runs : option (list PipelineRun)
}.

(** ** The score calculator *)

(** JavaScript [a < b] on two finite numbers. *)
Definition Qltb (a b : Q) : bool := negb (Qle_bool b a).

(** [calculateScore] closes over the state variable [results], which is
    [null] until a run has answered; it is the argument here.

<<
  const calculateScore = () => {
    if (!results) return 0;
    let score = 100;
    if (results.total_time_taken < 300) score += 10;
    if (results.total_fixes_applied > 20) {
      score -= (results.total_fixes_applied - 20) * 2;
    }
    return Math.max(score, 0);
  };
>> *)
Definition calculateScore (results : option AnalysisResult) : Z :=
  match results with
  | None => 0
  | Some results =>
      let score := 100 in
      let score :=
        if Qltb (total_time_taken results) 300 then score + 10 else score in
      let score :=
        if total_fixes_applied results >? 20
        then score - (total_fixes_applied results - 20) * 2
        else score in
      Z.max score 0
  end.

(** The score as the specification words it: start at 100, add 10 when
    the time is below 300 seconds, subtract 2 for every fix beyond the
    20th, never go below 0. *)
Definition speed_bonus (t : Q) : Z :=
  if Qlt_le_dec t 300 then 10 else 0.

Definition fix_penalty (f : Z) : Z :=
  if Z_gt_dec f 20 then (f - 20) * 2 else 0.

Definition score_spec (f : Z) (t : Q) : Z :=
  Z.max 0 (100 + speed_bonus t - fix_penalty f).

(** A result that differs from [r] at most in the two score inputs. *)
Definition with_totals (r : AnalysisResult) (f : Z) (t : Q) : AnalysisResult :=
  {| repo_url := repo_url r;
     team_name := team_name r;
     leader_name := leader_name r;
     branch_name := branch_name r;
     branch_url := branch_url r;
     push_status := push_status r;
     token_used := token_used r;
     push_destination := push_destination r;
     total_failures_detected := total_failures_detected r;
     total_fixes_applied := f;
     cicd_status := cicd_status r;
     total_iterations := total_iterations r;
     total_time_taken := t;
     fixes := fixes r;
     cicd_runs := cicd_runs r |}.

(** Two sample answers, far apart in everything but the score inputs. *)
Definition sample_fix : Fix :=
  {| file := "src/utils.py"; bug_type := LINTING; line_number := 3;
     commit_message := "[AI-AGENT] Fix LINTING in src/utils.py";
     fix_detail := "Removed unused import"; status := Fixed |}.

Definition sample_result : AnalysisResult :=
  {| repo_url := "https://github.com/username/repo";
     team_name := "RIFT ORGANISERS";
     leader_name := "John Doe";
     branch_name := "RIFT_ORGANISERS_JOHN_DOE_AI_Fix";
     branch_url :=
       "https://github.com/username/repo/tree/RIFT_ORGANISERS_JOHN_DOE_AI_Fix";
     push_status := "Pushed successfully";
     token_used := "User Token";
     push_destination := "fork";
     total_failures_detected := 5;
     total_fixes_applied := 5;
     cicd_status := PASSED;
     total_iterations := 1;
     total_time_taken := 452 # 10;
     fixes := [sample_fix];
     cicd_runs :=
       Some [{| run_iteration := 1; run_status := PASSED;
                timestamp := 1771000000 |}] |}.

Definition bare_result : AnalysisResult :=
  {| repo_url := EmptyString;
     team_name := EmptyString;
     leader_name := EmptyString;
     branch_name := EmptyString;
     branch_url := EmptyString;
     push_status := "Push failed";
     token_used := "Default Token"; push_destination := "original";
     total_failures_detected := 0;
     total_fixes_applied := 5;
     cicd_status := FAILED;
     total_iterations := 5;
     total_time_taken := 904 # 20;
     fixes := [];
     cicd_runs := None |}.


(** ** The iteration badge

<<
  {results.total_iterations}/{results.cicd_runs?.length || 5}
>>
    The denominator is the number of recorded runs; an absent or empty
    run list shows the default budget 5. *)
Definition default_max_iterations : nat := 5.

Definition or_default (n d : Z) : Z := if n =? 0 then d else n.

Definition iterations_badge (r : AnalysisResult) : Z * Z :=
  (total_iterations r,
   match cicd_runs r with
   | Some runs => or_default (Z.of_nat (List.length runs))
                             (Z.of_nat default_max_iterations)
   | None => Z.of_nat default_max_iterations
   end).

(** ** The submit handler

    Component state, as declared by the four [useState] calls. *)
Record FormData := {
  repoUrl : string;
  teamName : string;
  leaderName : string;
  githubToken : string
}.

Record AppState := {
  formData : FormData;
  loading : bool;
  results : option AnalysisResult;
  error : string
}.

(** The JSON body of the request. *)
Record AnalyzeRequest := {
  req_repo_url : string;
  req_team_name : string;
  req_leader_name : string;
  req_github_token : string
}.

(** What [await axios.post(...)] gives: the answer's [data], or a thrown
    error of which the handler reads [err.response?.data?.detail]
    ([None] when the optional chain yields [undefined]). *)
Inductive Response :=
| Resolved (data : AnalysisResult)
| Rejected (detail : option string).

(** What the handler does to the outside, in order. *)
Inductive Event :=
| SetError (msg : string)
| SetLoading (b : bool)
| SetResults (r : option AnalysisResult)
| Post (url : string) (body : AnalyzeRequest)
| ConsoleError (msg : string).

(** State of the component threaded through the handler, with the log
    of what it did. *)
Definition M (A : Type) : Type := AppState -> A * AppState * list Event.

Definition ret {A} (a : A) : M A := fun st => (a, st, []).

Definition bind {A B} (m : M A) (k : A -> M B) : M B :=
  fun st =>
    let '(a, st1, log1) := m st in
    let '(b, st2, log2) := k a st1 in
    (b, st2, log1 ++ log2).

Declare Scope handler_scope.
Delimit Scope handler_scope with handler.
Notation "x <- m ;; k" := (bind m (fun x => k))
  (at level 61, m at next level, right associativity) : handler_scope.
Notation "m ;; k" := (bind m (fun _ => k))
  (at level 61, right associativity) : handler_scope.

Definition setError (msg : string) : M unit :=
  fun st =>
    (tt,
     {| formData := formData st; loading := loading st;
        results := results st; error := msg |},
     [SetError msg]).

Definition setLoading (b : bool) : M unit :=
  fun st =>
    (tt,
     {| formData := formData st; loading := b;
        results := results st; error := error st |},
     [SetLoading b]).

Definition setResults (r : option AnalysisResult) : M unit :=
  fun st =>
    (tt,
     {| formData := formData st; loading := loading st;
        results := r; error := error st |},
     [SetResults r]).

Definition consoleError (msg : string) : M unit :=
  fun st => (tt, st, [ConsoleError msg]).

(** The network is a function from the request to what comes back. *)
Definition Server : Type := string -> AnalyzeRequest -> Response.

Definition post (server : Server) (url : string) (body : AnalyzeRequest)
  : M Response :=
  fun st => (server url body, st, [Post url body]).

(** JavaScript [!s] on a string: only the empty string is falsy. *)
Definition falsy (s : string) : bool :=
  match s with EmptyString => true | String _ _ => false end.

(** [detail || fallback] *)
Definition or_else (detail : option string) (fallback : string) : string :=
  match detail with
  | Some s => if falsy s then fallback else s
  | None => fallback
  end.

Definition analyze_url : string := "http://localhost:8000/analyze".

Definition body_of (fd : FormData) : AnalyzeRequest :=
  {| req_repo_url := repoUrl fd;
     req_team_name := teamName fd;
     req_leader_name := leaderName fd;
     req_github_token := githubToken fd |}.

(**
<<
  const handleRun = async () => {
    if (!formData.repoUrl || !formData.teamName || !formData.leaderName) {
      setError('Please fill in all required fields');
      return;
    }
    setError('');
    setLoading(true);
    setResults(null);
    try {
      const response = await axios.post('http://localhost:8000/analyze', {
        repo_url: formData.repoUrl,
        team_name: formData.teamName,
        leader_name: formData.leaderName,
        github_token: formData.githubToken
      });
      setResults(response.data);
    } catch (err) {
      console.error("Agent failed", err);
      setError(err.response?.data?.detail
               || "Agent execution failed. Check console.");
    }
    setLoading(false);
  };
>> *)
Definition handleRun (server : Server) : M unit :=
  fun st =>
    let fd := formData st in
    (if falsy (repoUrl fd) || falsy (teamName fd) || falsy (leaderName fd)
     then setError "Please fill in all required fields"
     else (
       setError EmptyString ;;
       setLoading true ;;
       setResults None ;;
       response <- post server analyze_url (body_of fd) ;;
       match response with
       | Resolved data => setResults (Some data)
       | Rejected detail =>
           consoleError "Agent failed" ;;
           setError (or_else detail "Agent execution failed. Check console.")
       end ;;
       setLoading false)%handler) st.

(** The tail of the handler: what it does once the request has come
    back. *)
Definition settle (resp : Response) : M unit :=
  (match resp with
   | Resolved data => setResults (Some data)
   | Rejected detail =>
       consoleError "Agent failed" ;;
       setError (or_else detail "Agent execution failed. Check console.")
   end ;;
   setLoading false)%handler.

(** Reading the log. *)
Definition is_post (e : Event) : bool :=
  match e with Post _ _ => true | _ => false end.

Definition is_loading_on (e : Event) : bool :=
  match e with SetLoading true => true | _ => false end.

Definition posts (log : list Event) : list Event := filter is_post log.

Definition log_of {A} (x : A * AppState * list Event) : list Event := snd x.
Definition state_of {A} (x : A * AppState * list Event) : AppState :=
  snd (fst x).

Definition initial_state : AppState :=
  {| formData := {| repoUrl := EmptyString; teamName := EmptyString;
                    leaderName := EmptyString; githubToken := EmptyString |};
     loading := false; results := None; error := EmptyString |}.

Definition with_form (st : AppState) (fd : FormData) : AppState :=
  {| formData := fd; loading := loading st; results := results st;
     error := error st |}.

Definition sample_form : FormData :=
  {| repoUrl := "https://github.com/username/repo";
     teamName := "RIFT ORGANISERS";
     leaderName := "John Doe";
     githubToken := EmptyString |}.

Definition sample_server : Server := fun _ _ => Resolved sample_result.
Definition failing_server : Server := fun _ _ => Rejected None.

(** ** The healing loop

    The backend that answers [POST /analyze] ([backend/main.py],
    [backend/agent_logic.py]) drives scan, fix and simulated pipeline
    until the pipeline passes or the iteration budget is used up.  Its
    definitions below follow the design document of the loop. *)

Module HealingLoop.

Record Finding := {
  finding_file : string;
  defect_kind : BugType;
  finding_line : Z;
  matched_text : string;
  severity : string
}.

(** Modelled from the spec: the Defect Scanner and the Fix Engine of
    [agent_logic.py], which the loop uses as two capabilities over a
    working copy: a scan pass that reads the working copy afresh, and a
    fix attempt that rewrites the working copy and gives one Fix record
    (Fixed or Failed).  [clock] stamps the run of each iteration. *)
Class Engine (WorkingCopy : Type) := {
  scan : WorkingCopy -> list Finding;
  apply_fix : WorkingCopy -> Finding -> WorkingCopy * Fix;
  clock : nat -> Z
}.

Inductive Phase :=
| READY | SCANNING | FIXING | SIMULATING | DONE_PASSED | DONE_EXHAUSTED.

Section Loop.

Context {WorkingCopy : Type} {engine : Engine WorkingCopy}.

(** The run context threaded through the loop. *)
Record Ctx := {
  phase : Phase;
  wc : WorkingCopy;
  iteration : nat;
  findings : list Finding;
  iter_fixes : list Fix;
  all_fixes : list Fix;
  runs : list PipelineRun;
  failures_detected : nat
}.

Definition is_failed (x : Fix) : bool :=
  match status x with Failed => true | Fixed => false end.

(** Modelled from the spec: the Pipeline Simulator's verdict function
    [evaluate], absent from the sources.  PASSED if no unresolved
    Findings remain in the working copy and no Fix of the current
    iteration has status Failed, otherwise FAILED. *)
Definition evaluate (w : WorkingCopy) (current : list Fix) : RunStatus :=
  match scan w with
  | [] => if existsb is_failed current then FAILED else PASSED
  | _ :: _ => FAILED
  end.

(** Modelled from the spec: the FIXING phase of the Fix Engine, one Fix
    attempt per Finding of the current scan, in scan order, each on the
    working copy the previous attempt left. *)
Fixpoint fix_all (w : WorkingCopy) (fs : list Finding)
  : WorkingCopy * list Fix :=
  match fs with
  | [] => (w, [])
  | f :: rest =>
      let (w1, x) := apply_fix w f in
      let (w2, xs) := fix_all w1 rest in
      (w2, x :: xs)
  end.

Definition init (w : WorkingCopy) : Ctx :=
  {| phase := READY; wc := w; iteration := 0; findings := [];
     iter_fixes := []; all_fixes := []; runs := [];
     failures_detected := 0 |}.

Definition is_done (c : Ctx) : bool :=
  match phase c with
  | DONE_PASSED | DONE_EXHAUSTED => true
  | _ => false
  end.

Definition in_loop (c : Ctx) : bool :=
  match phase c with
  | SCANNING | FIXING | SIMULATING => true
  | _ => false
  end.

Definition set_phase (p : Phase) (c : Ctx) : Ctx :=
  {| phase := p; wc := wc c; iteration := iteration c;
     findings := findings c; iter_fixes := iter_fixes c;
     all_fixes := all_fixes c; runs := runs c;
     failures_detected := failures_detected c |}.

(** Modelled from the spec: the Healing Loop state machine of the
    orchestrator, absent from the sources.

    - READY to SCANNING on run start (with a budget of 0 no scan is
      ever started and the run ends EXHAUSTED at once);
    - SCANNING to FIXING always, also with no findings;
    - FIXING to SIMULATING once every finding has its Fix attempt;
    - SIMULATING appends the PipelineRun of the iteration, then goes to
      DONE(PASSED) on PASSED, back to SCANNING on FAILED while the
      iteration count is below [max_iterations], and to
      DONE(EXHAUSTED) on FAILED when the count has reached it. *)
Definition step (max_iterations : nat) (c : Ctx) : option Ctx :=
  match phase c with
  | READY =>
      Some (set_phase (if max_iterations =? 0 then DONE_EXHAUSTED
                       else SCANNING)%nat c)
  | SCANNING =>
      let found := scan (wc c) in
      Some {| phase := FIXING; wc := wc c; iteration := iteration c;
              findings := found; iter_fixes := [];
              all_fixes := all_fixes c; runs := runs c;
              failures_detected :=
                (failures_detected c + List.length found)%nat |}
  | FIXING =>
      let (w', attempts) := fix_all (wc c) (findings c) in
      Some {| phase := SIMULATING; wc := w'; iteration := iteration c;
              findings := []; iter_fixes := attempts;
              all_fixes := all_fixes c ++ attempts; runs := runs c;
              failures_detected := failures_detected c |}
  | SIMULATING =>
      let verdict := evaluate (wc c) (iter_fixes c) in
      let n := S (iteration c) in
      let run := {| run_iteration := Z.of_nat n; run_status := verdict;
                    timestamp := clock n |} in
      let next :=
        match verdict with
        | PASSED => DONE_PASSED
        | _ => if (n <? max_iterations)%nat then SCANNING
               else DONE_EXHAUSTED
        end in
      Some {| phase := next; wc := wc c; iteration := n;
              findings := findings c; iter_fixes := iter_fixes c;
              all_fixes := all_fixes c; runs := runs c ++ [run];
              failures_detected := failures_detected c |}
  | DONE_PASSED | DONE_EXHAUSTED => None
  end.

(** The loop: transitions until a DONE state, at most [fuel] of them. *)
Fixpoint run_loop (max_iterations fuel : nat) (c : Ctx) : Ctx :=
  match fuel with
  | O => c
  | S fuel' =>
      match step max_iterations c with
      | Some c' => run_loop max_iterations fuel' c'
      | None => c
      end
  end.

(** One transition to SCANNING or DONE, then three per iteration. *)
Definition enough_fuel (max_iterations : nat) : nat :=
  (1 + 3 * max_iterations)%nat.

Definition heal (max_iterations : nat) (w : WorkingCopy) : Ctx :=
  run_loop max_iterations (enough_fuel max_iterations) (init w).

(** The states the loop can be in. *)
Inductive reachable (max_iterations : nat) (w : WorkingCopy) : Ctx -> Prop :=
| reach_init : reachable max_iterations w (init w)
| reach_step c c' :
    reachable max_iterations w c ->
    step max_iterations c = Some c' ->
    reachable max_iterations w c'.

Definition last_status (rs : list PipelineRun) : option RunStatus :=
  match rs with
  | [] => None
  | r :: rest => Some (run_status (last rest r))
  end.

(** The terminal state that goes with the status of the last run. *)
Definition terminal_of (s : option RunStatus) : Phase :=
  match s with
  | Some PASSED => DONE_PASSED
  | _ => DONE_EXHAUSTED
  end.

(** Modelled from the spec: the AnalysisResult the orchestrator builds
    once, at loop termination, from the run context; [meta] carries the
    identity and publishing fields and [elapsed] the wall-clock time
    between the first transition and the DONE transition. *)
Definition finalize (meta : AnalysisResult) (elapsed : Q) (c : Ctx)
  : AnalysisResult :=
  {| repo_url := repo_url meta;
     team_name := team_name meta;
     leader_name := leader_name meta;
     branch_name := branch_name meta;
     branch_url := branch_url meta;
     push_status := push_status meta;
     token_used := token_used meta;
     push_destination := push_destination meta;
     total_failures_detected := Z.of_nat (failures_detected c);
     total_fixes_applied := Z.of_nat (List.length (all_fixes c));
     cicd_status :=
       match phase c with DONE_PASSED => PASSED | _ => FAILED end;
     total_iterations := Z.of_nat (iteration c);
     total_time_taken := elapsed;
     fixes := all_fixes c;
     cicd_runs := Some (runs c) |}.

(** What holds of the run context all along the loop. *)
Definition loop_invariant (max_iterations : nat) (c : Ctx) : Prop :=
  List.length (runs c) = iteration c /\
  (iteration c <= max_iterations)%nat /\
  (in_loop c = true -> (iteration c < max_iterations)%nat) /\
  (phase c = READY -> iteration c = 0%nat) /\
  (is_done c = true -> phase c = terminal_of (last_status (runs c))) /\
  (phase c = DONE_EXHAUSTED -> iteration c = max_iterations).

(** Transitions still to go, at most. *)
Definition remaining (max_iterations : nat) (c : Ctx) : nat :=
  match phase c with
  | READY => 1 + 3 * max_iterations
  | SCANNING => 3 * (max_iterations - iteration c)
  | FIXING => 3 * (max_iterations - iteration c) - 1
  | SIMULATING => 3 * (max_iterations - iteration c) - 2
  | DONE_PASSED | DONE_EXHAUSTED => 0
  end%nat.

End Loop.

Arguments Ctx WorkingCopy : clear implicits.

(** *** Two small engines to run the loop on

    A working copy of one file, as its lines.  A line that reads
    [import os] is an unused import. *)
Definition lint_scan (lines : list string) : list Finding :=
  flat_map
    (fun '(i, l) =>
       if String.eqb l "import os"
       then [{| finding_file := "app.py"; defect_kind := LINTING;
                finding_line := Z.of_nat i; matched_text := l;
                severity := "warning" |}]
       else [])
    (combine (seq 1 (List.length lines)) lines).

Definition fix_of (f : Finding) (detail : string) (s : FixStatus) : Fix :=
  {| file := finding_file f; bug_type := defect_kind f;
     line_number := finding_line f;
     commit_message := "[AI-AGENT] Fix applied";
     fix_detail := detail; status := s |}.

(** Comments the offending line out. *)
Fixpoint comment_out (n : nat) (lines : list string) : list string :=
  match lines, n with
  | [], _ => []
  | l :: rest, O => l :: rest
  | l :: rest, S O => ("# " ++ l)%string :: rest
  | l :: rest, S n' => l :: comment_out n' rest
  end.

Definition healing_engine : Engine (list string) :=
  {| scan := lint_scan;
     apply_fix w f :=
       (comment_out (Z.to_nat (finding_line f)) w,
        fix_of f "Commented out unused import" Fixed);
     clock n := Z.of_nat n |}.

(** Cannot rewrite anything: every attempt is recorded as Failed. *)
Definition stuck_engine : Engine (list string) :=
  {| scan := lint_scan;
     apply_fix w f := (w, fix_of f "Could not rewrite safely" Failed);
     clock n := Z.of_nat n |}.

End HealingLoop.

(** ** The rest of the dashboard *)

(** *** The form inputs

    The four inputs share one handler shape, each for its own key:
<<
  onChange={(e) => setFormData({...formData, repoUrl: e.target.value})}
>> *)
Inductive Field := RepoUrlField | TeamNameField | LeaderNameField
                 | GithubTokenField.

(** [{...formData, key: value}] *)
Definition spread_with (fd : FormData) (key : Field) (value : string)
  : FormData :=
  match key with
  | RepoUrlField =>
      {| repoUrl := value; teamName := teamName fd;
         leaderName := leaderName fd; githubToken := githubToken fd |}
  | TeamNameField =>
      {| repoUrl := repoUrl fd; teamName := value;
         leaderName := leaderName fd; githubToken := githubToken fd |}
  | LeaderNameField =>
      {| repoUrl := repoUrl fd; teamName := teamName fd;
         leaderName := value; githubToken := githubToken fd |}
  | GithubTokenField =>
      {| repoUrl := repoUrl fd; teamName := teamName fd;
         leaderName := leaderName fd; githubToken := value |}
  end.

Definition onChange (key : Field) (value : string) (st : AppState)
  : AppState :=
  {| formData := spread_with (formData st) key value;
     loading := loading st; results := results st; error := error st |}.

Definition required (key : Field) : bool :=
  match key with GithubTokenField => false | _ => true end.

(** *** What is on screen

    [{error && (...)}], [{results && (...)}] and the button's
    [disabled={loading}]. *)
Definition shows_error (st : AppState) : bool := negb (falsy (error st)).

Definition shows_results (st : AppState) : bool :=
  match results st with Some _ => true | None => false end.

Definition run_disabled (st : AppState) : bool := loading st.

Definition validation_message : string :=
  "Please fill in all required fields".

Definition fallback_message : string :=
  "Agent execution failed. Check console.".

(** *** Bug type badge

<<
  const getBugTypeColor = (bugType) => {
    switch(bugType) {
      case 'LINTING': return 'bg-yellow-900 text-yellow-200';
      case 'SYNTAX': return 'bg-red-900 text-red-200';
      case 'TYPE_ERROR': return 'bg-purple-900 text-purple-200';
      case 'INDENTATION': return 'bg-blue-900 text-blue-200';
      case 'IMPORT': return 'bg-orange-900 text-orange-200';
      default: return 'bg-gray-700 text-gray-200';
    }
  };
>> *)
Definition getBugTypeColor (bugType : string) : string :=
  if String.eqb bugType "LINTING" then "bg-yellow-900 text-yellow-200"
  else if String.eqb bugType "SYNTAX" then "bg-red-900 text-red-200"
  else if String.eqb bugType "TYPE_ERROR"
       then "bg-purple-900 text-purple-200"
  else if String.eqb bugType "INDENTATION" then "bg-blue-900 text-blue-200"
  else if String.eqb bugType "IMPORT" then "bg-orange-900 text-orange-200"
  else "bg-gray-700 text-gray-200".

Definition known_bug_types : list string :=
  ["LINTING"; "SYNTAX"; "TYPE_ERROR"; "INDENTATION"; "IMPORT"]%string.

Definition default_color : string := "bg-gray-700 text-gray-200".

(** The name a bug type has in the JSON answer. *)
Definition bug_type_name (b : BugType) : string :=
  match b with
  | LINTING => "LINTING"
  | SYNTAX => "SYNTAX"
  | TYPE_ERROR => "TYPE_ERROR"
  | INDENTATION => "INDENTATION"
  | IMPORT => "IMPORT"
  end.

(** *** Score breakdown

    The Speed bar is green on
    [results.total_time_taken < 300]; the chart has a Base bar and a
    Speed bar and no bar for the penalty. *)
Definition speed_bar_green (r : AnalysisResult) : bool :=
  Qltb (total_time_taken r) 300.

Definition breakdown_sum (r : AnalysisResult) : Z :=
  100 + (if speed_bar_green r then 10 else 0).

(** *** Timeline and summary

    [a || b] on a number that may be [undefined] ([None]). *)
Definition js_or (a b : option Z) : option Z :=
  match a with
  | Some n => if n =? 0 then b else Some n
  | None => b
  end.

(** [a || d] with a number on the right. *)
Definition or_num (a : option Z) (d : Z) : Z :=
  match a with
  | Some n => if n =? 0 then d else n
  | None => d
  end.

(** [results.cicd_runs?.length] *)
Definition runs_length (r : AnalysisResult) : option Z :=
  option_map (fun runs => Z.of_nat (List.length runs)) (cicd_runs r).

Definition RunStatus_eqb (a b : RunStatus) : bool :=
  match a, b with
  | PASSED, PASSED | FAILED, FAILED | RUNNING, RUNNING => true
  | _, _ => false
  end.

(** [results.cicd_runs?.filter(r => r.status === s).length || 0] *)
Definition summary_count (s : RunStatus) (r : AnalysisResult) : Z :=
  or_num
    (option_map
       (fun runs =>
          Z.of_nat
            (List.length
               (filter (fun x => RunStatus_eqb (run_status x) s) runs)))
       (cicd_runs r))
    0.

Definition summary_passed : AnalysisResult -> Z := summary_count PASSED.
Definition summary_failed : AnalysisResult -> Z := summary_count FAILED.

(** [results.total_iterations || results.cicd_runs?.length || 0] *)
Definition summary_total (r : AnalysisResult) : Z :=
  or_num (js_or (Some (total_iterations r)) (runs_length r)) 0.

(** [results.cicd_runs && results.cicd_runs.length > 0]: the timeline
    is drawn, otherwise the text [No CI/CD runs available]. *)
Definition timeline_shown (r : AnalysisResult) : bool :=
  match cicd_runs r with
  | Some runs => 0 <? Z.of_nat (List.length runs)
  | None => false
  end.

(** The entries of the timeline: [idx + 1] as the iteration number and,
    on [idx < results.cicd_runs.length - 1], a connector to the next. *)
Definition has_connector (len idx : nat) : bool :=
  Z.of_nat idx <? Z.of_nat len - 1.

Definition timeline_entries (r : AnalysisResult)
  : list (Z * RunStatus * bool) :=
  match cicd_runs r with
  | Some runs =>
      map (fun '(idx, run) =>
             (Z.of_nat idx + 1, run_status run,
              has_connector (List.length runs) idx))
          (combine (seq 0 (List.length runs)) runs)
  | None => []
  end.

(** The three required inputs are filled in. *)
Definition valid_form (fd : FormData) : Prop :=
  repoUrl fd <> EmptyString /\ teamName fd <> EmptyString /\
  leaderName fd <> EmptyString.

(** * Part II: properties *)

(** ** Comparison of rationals *)

Lemma Qltb_lt a b : Qltb a b = true <-> (a < b)%Q.
Proof.
  unfold Qltb. rewrite negb_true_iff.
  split; intro H.
  - apply Qnot_le_lt. intro Hle. apply Qle_bool_iff in Hle. congruence.
  - destruct (Qle_bool b a) eqn:E; [|reflexivity].
    apply Qle_bool_iff in E. exfalso. exact (Qle_not_lt _ _ E H).
Qed.

Lemma Qltb_ge a b : Qltb a b = false <-> (b <= a)%Q.
Proof.
  unfold Qltb. rewrite negb_false_iff. apply Qle_bool_iff.
Qed.

Lemma Qltb_compat a a' b : (a == a')%Q -> Qltb a b = Qltb a' b.
Proof.
  intro E. destruct (Qltb a' b) eqn:H.
  - apply Qltb_lt. rewrite E. now apply Qltb_lt.
  - apply Qltb_ge. rewrite E. now apply Qltb_ge.
Qed.

(** ** Properties of the score *)

Section Score.

Implicit Types (r : AnalysisResult) (f : Z) (t : Q).

Lemma speed_bonus_Qltb t : speed_bonus t = if Qltb t 300 then 10 else 0.
Proof.
  unfold speed_bonus. destruct (Qlt_le_dec t 300) as [H|H].
  - apply Qltb_lt in H. now rewrite H.
  - apply Qltb_ge in H. now rewrite H.
Qed.

Lemma fix_penalty_gtb f : fix_penalty f = if f >? 20 then (f - 20) * 2 else 0.
Proof.
  unfold fix_penalty. destruct (Z_gt_dec f 20) as [H|H].
  - apply Z.gt_lt, Z.gtb_lt in H. now rewrite H.
  - destruct (f >? 20) eqn:E; [|reflexivity].
    apply Z.gtb_lt in E. lia.
Qed.

Lemma fix_penalty_nonneg f : 0 <= fix_penalty f.
Proof. unfold fix_penalty. destruct (Z_gt_dec f 20); lia. Qed.

Lemma fix_penalty_mono f1 f2 : f1 <= f2 -> fix_penalty f1 <= fix_penalty f2.
Proof. unfold fix_penalty. intros H. do 2 destruct Z_gt_dec; lia. Qed.

(** The code and the worded score agree on every result object. *)
Lemma calculateScore_unfold r :
  calculateScore (Some r) =
  score_spec (total_fixes_applied r) (total_time_taken r).
Proof.
  unfold calculateScore, score_spec.
  rewrite speed_bonus_Qltb, fix_penalty_gtb.
  destruct (Qltb _ 300), (_ >? 20); lia.
Qed.

Lemma speed_bonus_compat t t' : (t == t')%Q -> speed_bonus t = speed_bonus t'.
Proof.
  intro E. rewrite !speed_bonus_Qltb. now rewrite (Qltb_compat _ _ _ E).
Qed.

End Score.

Lemma fix_penalty_at_most_20 f : f <= 20 -> fix_penalty f = 0.
Proof. unfold fix_penalty. intros H. destruct Z_gt_dec; lia. Qed.

Lemma score_spec_nonneg f t : 0 <= score_spec f t.
Proof. unfold score_spec. lia. Qed.

(** C1.  For every run result with an integer fix count [f >= 0] and a
    time [t >= 0], [calculateScore] returns
    [max(0, 100 + (if t < 300 then 10 else 0)
                - (if f > 20 then (f - 20) * 2 else 0))]:
    base 100, a bonus of 10 exactly when [t] is strictly below 300
    seconds, 2 off for every fix beyond the 20th, never below 0. *)
Theorem calculateScore_formula (r : AnalysisResult) :
  let f := total_fixes_applied r in
  let t := total_time_taken r in
  0 <= f ->
  (0 <= t)%Q ->
  calculateScore (Some r) =
  Z.max 0 (100 + (if Qlt_le_dec t 300 then 10 else 0)
               - (if Z_gt_dec f 20 then (f - 20) * 2 else 0)).
Proof.
  intros f t _ _. exact (calculateScore_unfold r).
Qed.

Lemma calculateScore_formula_witness :
  calculateScore (Some sample_result) =
  Z.max 0 (100 + (if Qlt_le_dec (452 # 10) 300 then 10 else 0)
               - (if Z_gt_dec 5 20 then (5 - 20) * 2 else 0)).
Proof.
  apply (calculateScore_formula sample_result).
  - simpl. lia.
  - unfold Qle. simpl. lia.
Defined.

(** C2.  Scenario D: with 25 fixes applied in 250 seconds the score is
    exactly 100, that is 100 + 10 - 5 * 2, whatever the other fields
    of the result. *)
Theorem calculateScore_scenario_D (r : AnalysisResult) :
  total_fixes_applied r = 25 ->
  (total_time_taken r == 250)%Q ->
  calculateScore (Some r) = 100.
Proof.
  intros Hf Ht. unfold calculateScore.
  rewrite Hf, (Qltb_compat _ _ _ Ht). reflexivity.
Qed.

Lemma calculateScore_scenario_D_witness :
  calculateScore (Some (with_totals sample_result 25 250)) = 100.
Proof.
  apply calculateScore_scenario_D.
  - reflexivity.
  - reflexivity.
Defined.

(** C3.  With the time held fixed the score does not increase when the
    fix count grows at or beyond 20: for [f2 >= f1 >= 20] the score at
    [f2] is at most the score at [f1].  And the score is never
    negative, on any input, a missing result included. *)
Theorem calculateScore_monotone_nonneg :
  (forall r1 r2 : AnalysisResult,
      (total_time_taken r1 == total_time_taken r2)%Q ->
      20 <= total_fixes_applied r1 ->
      total_fixes_applied r1 <= total_fixes_applied r2 ->
      calculateScore (Some r2) <= calculateScore (Some r1)) /\
  (forall res : option AnalysisResult, 0 <= calculateScore res).
Proof.
  split.
  - intros r1 r2 Ht _ Hle.
    rewrite !calculateScore_unfold. unfold score_spec.
    rewrite (speed_bonus_compat _ _ Ht).
    pose proof (fix_penalty_mono _ _ Hle). lia.
  - intros [r|].
    + rewrite calculateScore_unfold. apply score_spec_nonneg.
    + simpl. lia.
Qed.

Lemma calculateScore_monotone_nonneg_witness :
  calculateScore (Some (with_totals bare_result 40 10)) <=
  calculateScore (Some (with_totals sample_result 25 10)) /\
  0 <= calculateScore (Some (with_totals bare_result 80 10)).
Proof.
  split.
  - apply (proj1 calculateScore_monotone_nonneg).
    + reflexivity.
    + simpl. lia.
    + simpl. lia.
  - apply (proj2 calculateScore_monotone_nonneg).
Defined.

(** C8.  Before any run has answered ([results] is null) the score is
    0, not the base 100; once a result object exists the score is built
    on the base 100, and with neither bonus nor penalty it is 100. *)
Theorem calculateScore_no_result :
  calculateScore None = 0 /\
  (forall r : AnalysisResult,
      calculateScore (Some r) =
      Z.max 0 (100 + speed_bonus (total_time_taken r)
                   - fix_penalty (total_fixes_applied r))) /\
  (forall r : AnalysisResult,
      calculateScore (Some (with_totals r 0 300)) = 100).
Proof.
  split; [reflexivity|]. split.
  - intro r. apply calculateScore_unfold.
  - intro r. reflexivity.
Qed.

(** C10.  The score reads two fields only: two results with the same
    [total_time_taken] and the same [total_fixes_applied] get the same
    score, however they differ in fixes, pipeline runs, status, branch
    or metadata.  [calculateScore] being a function of the result
    alone, repeated calls on one result give one value. *)
Theorem calculateScore_reads_totals_only (r1 r2 : AnalysisResult) :
  (total_time_taken r1 == total_time_taken r2)%Q ->
  total_fixes_applied r1 = total_fixes_applied r2 ->
  calculateScore (Some r1) = calculateScore (Some r2).
Proof.
  intros Ht Hf. rewrite !calculateScore_unfold, Hf.
  unfold score_spec. now rewrite (speed_bonus_compat _ _ Ht).
Qed.

Lemma calculateScore_reads_totals_only_witness :
  calculateScore (Some sample_result) = calculateScore (Some bare_result).
Proof.
  apply calculateScore_reads_totals_only.
  - reflexivity.
  - reflexivity.
Defined.

(** ** Properties of the submit handler *)

Section Handler.

Variable server : Server.

Lemma falsy_empty s : falsy s = true <-> s = EmptyString.
Proof. destruct s; simpl; split; congruence. Qed.

Lemma falsy_nonempty s : falsy s = false <-> s <> EmptyString.
Proof. destruct s; simpl; split; congruence. Qed.

Lemma required_missing fd :
  falsy (repoUrl fd) || falsy (teamName fd) || falsy (leaderName fd) = true
  <-> repoUrl fd = EmptyString \/ teamName fd = EmptyString \/
      leaderName fd = EmptyString.
Proof.
  rewrite !orb_true_iff, !falsy_empty. tauto.
Qed.

(** The handler stops at the guard. *)
Lemma handleRun_rejects st :
  falsy (repoUrl (formData st)) || falsy (teamName (formData st))
  || falsy (leaderName (formData st)) = true ->
  handleRun server st =
  setError "Please fill in all required fields" st.
Proof. intro H. unfold handleRun. now rewrite H. Qed.

Lemma settle_no_post resp st : posts (log_of (settle resp st)) = [].
Proof. destruct resp; reflexivity. Qed.

Lemma settle_loading resp st : loading (state_of (settle resp st)) = false.
Proof. destruct resp; reflexivity. Qed.

Lemma handleRun_accepts st :
  falsy (repoUrl (formData st)) || falsy (teamName (formData st))
  || falsy (leaderName (formData st)) = false ->
  let fd := formData st in
  let resp := server analyze_url (body_of fd) in
  let st3 := {| formData := fd; loading := true; results := None;
                error := EmptyString |} in
  log_of (handleRun server st) =
  [SetError EmptyString; SetLoading true; SetResults None;
   Post analyze_url (body_of fd)] ++ log_of (settle resp st3)
  /\ state_of (handleRun server st) = state_of (settle resp st3).
Proof.
  intro H. unfold handleRun. rewrite H. cbn.
  destruct (server analyze_url (body_of (formData st))); cbn; split;
    reflexivity.
Qed.

End Handler.

(** C9.  If the repository URL, the team name or the leader name is
    empty, [handleRun] sets the error ['Please fill in all required
    fields'] and returns: no request is issued and the loading state is
    not entered.  If the three are non-empty, the error is cleared
    first and exactly one POST goes to the analyze endpoint, with the
    form as its body; nothing is asked of the GitHub token, which may
    be empty. *)
Theorem handleRun_required_fields (server : Server) (st : AppState) :
  let fd := formData st in
  let out := handleRun server st in
  (repoUrl fd = EmptyString \/ teamName fd = EmptyString \/
   leaderName fd = EmptyString ->
     log_of out = [SetError "Please fill in all required fields"] /\
     error (state_of out) = "Please fill in all required fields"%string /\
     loading (state_of out) = loading st /\
     results (state_of out) = results st /\
     posts (log_of out) = [] /\
     existsb is_loading_on (log_of out) = false)
  /\
  (repoUrl fd <> EmptyString -> teamName fd <> EmptyString ->
   leaderName fd <> EmptyString ->
     (exists rest,
         log_of out =
         SetError EmptyString :: SetLoading true :: SetResults None ::
         Post analyze_url (body_of fd) :: rest) /\
     posts (log_of out) = [Post analyze_url (body_of fd)] /\
     req_github_token (body_of fd) = githubToken fd).
Proof.
  intros fd out. split.
  - intro H. apply required_missing in H.
    subst out. rewrite (handleRun_rejects server st H).
    repeat split; reflexivity.
  - intros H1 H2 H3.
    apply falsy_nonempty in H1, H2, H3.
    assert (H : falsy (repoUrl (formData st)) || falsy (teamName (formData st))
                || falsy (leaderName (formData st)) = false).
    { fold fd. now rewrite H1, H2, H3. }
    destruct (handleRun_accepts server st H) as [Hlog _].
    subst out. fold fd in Hlog. rewrite Hlog.
    split; [eexists; reflexivity|]. split; [|reflexivity].
    unfold posts. rewrite filter_app.
    change (filter is_post (log_of ?x)) with (posts (log_of x)).
    rewrite settle_no_post. reflexivity.
Qed.

Lemma handleRun_required_fields_witness :
  (log_of (handleRun failing_server initial_state) =
   [SetError "Please fill in all required fields"]) /\
  (posts (log_of (handleRun sample_server
                    (with_form initial_state sample_form))) =
   [Post analyze_url (body_of sample_form)]).
Proof.
  split.
  - apply (proj1 (handleRun_required_fields failing_server initial_state)).
    left. reflexivity.
  - apply (proj2 (handleRun_required_fields sample_server
                    (with_form initial_state sample_form)));
      simpl; discriminate.
Defined.

(** ** Properties of the iteration badge *)

Lemma or_default_pos n d : 0 < n -> or_default n d = n.
Proof.
  intro H. unfold or_default.
  destruct (n =? 0) eqn:E; [apply Z.eqb_eq in E; lia | reflexivity].
Qed.

(** ** Properties of the healing loop *)

Section LoopFacts.

Import HealingLoop.

Context {WorkingCopy : Type} {engine : Engine WorkingCopy}.

Implicit Types (c : Ctx WorkingCopy) (w : WorkingCopy).

Lemma fix_all_length w fs : List.length (snd (fix_all w fs)) = List.length fs.
Proof.
  revert w. induction fs as [|f rest IH]; intro w; simpl.
  - reflexivity.
  - destruct (apply_fix w f) as [w1 x].
    specialize (IH w1). destruct (fix_all w1 rest) as [w2 xs].
    simpl in *. now rewrite IH.
Qed.

Lemma last_status_snoc rs r : last_status (rs ++ [r]) = Some (run_status r).
Proof.
  unfold last_status. destruct rs as [|r0 rest]; simpl.
  - reflexivity.
  - now rewrite last_last.
Qed.

Lemma evaluate_cases w current :
  evaluate w current = PASSED \/ evaluate w current = FAILED.
Proof.
  unfold evaluate. destruct (scan w); [destruct (existsb _ _)|]; auto.
Qed.

Lemma no_failed_iff current :
  existsb is_failed current = false <->
  Forall (fun x => status x <> Failed) current.
Proof.
  induction current as [|x rest IH]; simpl.
  - split; [constructor | reflexivity].
  - rewrite orb_false_iff, IH. unfold is_failed.
    split.
    + intros [Hx Hrest]. constructor; [|assumption].
      destruct (status x); congruence.
    + intro H. inversion H as [|? ? Hx Hrest]; subst. split; [|assumption].
      destruct (status x); congruence.
Qed.

(** *** The transitions, one phase at a time *)

(** Projections of a context built by a transition, and nothing else. *)
Ltac loop_simpl :=
  cbn [phase wc iteration findings iter_fixes all_fixes runs
       failures_detected set_phase].

Ltac split_invariant :=
  unfold loop_invariant, in_loop, is_done; loop_simpl; repeat split.

Lemma step_done max c : step max c = None <-> is_done c = true.
Proof.
  unfold step, is_done.
  destruct (phase c); try (split; congruence).
  destruct (fix_all (wc c) (findings c)). split; congruence.
Qed.

Lemma step_outside_simulating max c c' :
  step max c = Some c' ->
  phase c <> SIMULATING ->
  runs c' = runs c /\ iteration c' = iteration c.
Proof.
  unfold step. intros H Hp.
  destruct (phase c); try congruence.
  - injection H as <-. split; reflexivity.
  - injection H as <-. split; reflexivity.
  - destruct (fix_all (wc c) (findings c)).
    injection H as <-. split; reflexivity.
Qed.

Lemma step_simulating max c c' :
  step max c = Some c' ->
  phase c = SIMULATING ->
  let verdict := evaluate (wc c) (iter_fixes c) in
  runs c' = runs c ++ [{| run_iteration := Z.of_nat (S (iteration c));
                          run_status := verdict;
                          timestamp := clock (S (iteration c)) |}] /\
  iteration c' = S (iteration c) /\
  wc c' = wc c /\ all_fixes c' = all_fixes c /\
  iter_fixes c' = iter_fixes c /\ findings c' = findings c /\
  failures_detected c' = failures_detected c.
Proof.
  unfold step. intros H Hp. rewrite Hp in H.
  injection H as <-. cbn. repeat split; reflexivity.
Qed.

Lemma invariant_init max w : loop_invariant max (init w).
Proof.
  unfold init. split_invariant; try lia; congruence.
Qed.

Lemma invariant_step max c c' :
  loop_invariant max c -> step max c = Some c' -> loop_invariant max c'.
Proof.
  intros (Hlen & Hle & Hin & Hready & Hdone & Hex) Hstep.
  unfold step in Hstep. unfold in_loop, is_done in *.
  destruct (phase c) eqn:Hp; try discriminate.
  - (* READY *)
    specialize (Hready eq_refl).
    injection Hstep as <-.
    destruct (Nat.eqb_spec max 0) as [E|E]; split_invariant;
      try congruence; try lia.
    intros _. destruct (runs c); [reflexivity | simpl in Hlen; lia].
  - (* SCANNING *)
    specialize (Hin eq_refl).
    injection Hstep as <-. split_invariant; try congruence; lia.
  - (* FIXING *)
    specialize (Hin eq_refl).
    destruct (fix_all (wc c) (findings c)) as [w' attempts].
    injection Hstep as <-. split_invariant; try congruence; lia.
  - (* SIMULATING *)
    specialize (Hin eq_refl). cbv zeta in Hstep.
    injection Hstep as <-.
    destruct (evaluate_cases (wc c) (iter_fixes c)) as [E|E]; rewrite E;
      [|destruct (Nat.ltb_spec (S (iteration c)) max) as [L|L]];
      split_invariant; rewrite ?last_status_snoc, ?length_app, ?Hlen;
      cbn [List.length run_status terminal_of]; try congruence; lia.
Qed.

Lemma reachable_invariant max w c :
  reachable max w c -> loop_invariant max c.
Proof.
  induction 1 as [|c c' _ IH Hstep].
  - apply invariant_init.
  - exact (invariant_step max c c' IH Hstep).
Qed.

(** *** Running the loop *)

Lemma run_loop_reachable max w fuel c :
  reachable max w c -> reachable max w (run_loop max fuel c).
Proof.
  revert c. induction fuel as [|fuel IH]; intros c Hc; simpl.
  - assumption.
  - destruct (step max c) as [c'|] eqn:E; [|assumption].
    apply IH. exact (reach_step max w c c' Hc E).
Qed.

Lemma run_loop_done max fuel c : is_done c = true -> run_loop max fuel c = c.
Proof.
  intro H. destruct fuel; simpl; [reflexivity|].
  apply (step_done max) in H. now rewrite H.
Qed.

Lemma run_loop_add max a b c :
  run_loop max (a + b) c = run_loop max b (run_loop max a c).
Proof.
  revert c. induction a as [|a IH]; intro c; simpl.
  - reflexivity.
  - destruct (step max c) as [c'|] eqn:E; [apply IH|].
    apply step_done in E. now rewrite run_loop_done.
Qed.

Lemma remaining_step max c c' :
  loop_invariant max c -> step max c = Some c' ->
  (remaining max c' < remaining max c)%nat.
Proof.
  intros (_ & _ & Hin & Hready & _ & _) Hstep.
  unfold step in Hstep. unfold remaining, in_loop in *.
  destruct (phase c) eqn:Hp; try discriminate.
  - specialize (Hready eq_refl). injection Hstep as <-.
    destruct (max =? 0)%nat; loop_simpl; lia.
  - specialize (Hin eq_refl). injection Hstep as <-. loop_simpl. lia.
  - specialize (Hin eq_refl).
    destruct (fix_all (wc c) (findings c)).
    injection Hstep as <-. loop_simpl. lia.
  - specialize (Hin eq_refl). cbv zeta in Hstep. injection Hstep as <-.
    destruct (evaluate (wc c) (iter_fixes c));
      try destruct (S (iteration c) <? max)%nat; loop_simpl; lia.
Qed.

Lemma remaining_zero max c :
  loop_invariant max c -> remaining max c = 0%nat -> is_done c = true.
Proof.
  intros (_ & _ & Hin & _) H0.
  unfold remaining, in_loop, is_done in *.
  destruct (phase c); try reflexivity; try discriminate;
    specialize (Hin eq_refl); lia.
Qed.

Lemma run_loop_finishes max fuel c :
  loop_invariant max c -> (remaining max c <= fuel)%nat ->
  is_done (run_loop max fuel c) = true.
Proof.
  revert c. induction fuel as [|fuel IH]; intros c Hinv Hrem; simpl.
  - apply (remaining_zero max); [assumption | lia].
  - destruct (step max c) as [c'|] eqn:E.
    + apply IH.
      * exact (invariant_step max c c' Hinv E).
      * pose proof (remaining_step max c c' Hinv E). lia.
    + now apply (step_done max).
Qed.

Lemma heal_reachable max w : reachable max w (heal max w).
Proof. apply run_loop_reachable, reach_init. Qed.

Lemma heal_done max w : is_done (heal max w) = true.
Proof.
  apply run_loop_finishes; [apply invariant_init|].
  unfold remaining, enough_fuel. cbn. lia.
Qed.

(** C4.  The verdict of the Pipeline Simulator is PASSED if and only if
    no unresolved Finding remains in the working copy and no Fix of the
    current iteration has status Failed; in every other case it is
    FAILED.  Evaluating it changes nothing: the transition that asks
    for the verdict leaves the working copy, the findings, the fix
    records and the failure count as they were and only records the
    verdict as the run of the iteration. *)
Theorem evaluate_verdict w (current : list Fix) :
  (evaluate w current = PASSED <->
   scan w = [] /\ Forall (fun x => status x <> Failed) current) /\
  (evaluate w current <> PASSED -> evaluate w current = FAILED) /\
  (forall max c c',
      phase c = SIMULATING -> step max c = Some c' ->
      wc c' = wc c /\ findings c' = findings c /\
      iter_fixes c' = iter_fixes c /\ all_fixes c' = all_fixes c /\
      failures_detected c' = failures_detected c /\
      exists run, runs c' = runs c ++ [run] /\
                  run_status run = evaluate (wc c) (iter_fixes c)).
Proof.
  split; [|split].
  - unfold evaluate. rewrite <- no_failed_iff.
    destruct (scan w) as [|f rest].
    + destruct (existsb is_failed current); split;
        intuition congruence.
    + split; [congruence | intros [H _]; congruence].
  - destruct (evaluate_cases w current); congruence.
  - intros max c c' Hp Hstep.
    destruct (step_simulating max c c' Hstep Hp)
      as (Hruns & _ & Hwc & Hall & Hiter & Hfind & Hfail).
    repeat split; try assumption.
    eexists. split; [exact Hruns | reflexivity].
Qed.

(** C5.  In every reachable state of the Healing Loop the number of
    PipelineRun records equals the number of completed iterations and
    is at most [max_iterations]; a transition appends exactly one
    PipelineRun when it completes an iteration and none otherwise; in a
    DONE state the status of the last PipelineRun tells DONE(PASSED)
    from DONE(EXHAUSTED); and the AnalysisResult built from the state
    carries these runs and this count. *)
Theorem pipeline_runs_invariant max w c :
  reachable max w c ->
  List.length (runs c) = iteration c /\
  (List.length (runs c) <= max)%nat /\
  (forall c', step max c = Some c' ->
      (phase c = SIMULATING ->
         (exists run, runs c' = runs c ++ [run]) /\
         iteration c' = S (iteration c)) /\
      (phase c <> SIMULATING ->
         runs c' = runs c /\ iteration c' = iteration c)) /\
  (is_done c = true -> phase c = terminal_of (last_status (runs c))) /\
  (forall meta elapsed,
      let r := finalize meta elapsed c in
      cicd_runs r = Some (runs c) /\
      total_iterations r = Z.of_nat (List.length (runs c)) /\
      total_iterations r <= Z.of_nat max).
Proof.
  intro Hreach.
  destruct (reachable_invariant max w c Hreach)
    as (Hlen & Hle & _ & _ & Hdone & _).
  split; [assumption|]. split; [lia|]. split; [|split].
  - intros c' Hstep. split.
    + intro Hp.
      destruct (step_simulating max c c' Hstep Hp) as (Hruns & Hit & _).
      split; [eexists; exact Hruns | exact Hit].
    + intro Hp. exact (step_outside_simulating max c c' Hstep Hp).
  - exact Hdone.
  - intros meta elapsed r. subst r. cbn [finalize cicd_runs total_iterations].
    rewrite Hlen. repeat split. lia.
Qed.

(** C7.  For every working copy and every [max_iterations] the Healing
    Loop terminates: after at most [1 + 3 * max_iterations] transitions
    it is in a DONE state, from which there is no transition, and more
    fuel changes nothing.  It has then executed at most
    [max_iterations] iterations (at most 5 with the default), and an
    iteration is only ever in progress while fewer than
    [max_iterations] are completed. *)
Theorem healing_loop_terminates max w :
  is_done (heal max w) = true /\
  step max (heal max w) = None /\
  (iteration (heal max w) <= max)%nat /\
  (iteration (heal default_max_iterations w) <= 5)%nat /\
  (forall fuel, (enough_fuel max <= fuel)%nat ->
      run_loop max fuel (init w) = heal max w) /\
  (forall c, reachable max w c -> in_loop c = true ->
      (iteration c < max)%nat).
Proof.
  pose proof (heal_done max w) as Hdone.
  assert (Hbound : forall m, (iteration (heal m w) <= m)%nat).
  { intro m. apply (reachable_invariant m w), heal_reachable. }
  split; [assumption|]. split; [now apply step_done|].
  split; [apply Hbound|]. split; [apply (Hbound default_max_iterations)|].
  split.
  - intros fuel Hfuel.
    replace fuel with (enough_fuel max + (fuel - enough_fuel max))%nat by lia.
    rewrite run_loop_add. fold (heal max w). now apply run_loop_done.
  - intros c Hreach Hin.
    now apply (reachable_invariant max w c Hreach).
Qed.

(** The badge of a finished run: [n/n] after [n > 0] iterations, [0/5]
    when the budget allowed none. *)
Lemma badge_of_run max w c meta elapsed :
  reachable max w c ->
  iterations_badge (finalize meta elapsed c) =
  (Z.of_nat (iteration c),
   if (iteration c =? 0)%nat then 5 else Z.of_nat (iteration c)).
Proof.
  intro Hreach.
  destruct (reachable_invariant max w c Hreach) as (Hlen & _).
  unfold iterations_badge. cbn [finalize cicd_runs total_iterations].
  rewrite Hlen. f_equal.
  destruct (iteration c) as [|n]; [reflexivity|].
  cbn [Nat.eqb]. apply or_default_pos. lia.
Qed.

(** Every finding of every scan gets one Fix record. *)
Lemma fixes_match_findings max w c :
  reachable max w c ->
  List.length (all_fixes c) =
  match phase c with
  | FIXING => (failures_detected c - List.length (findings c))%nat
  | _ => failures_detected c
  end /\
  (phase c = FIXING ->
   (List.length (findings c) <= failures_detected c)%nat).
Proof.
  induction 1 as [|c c' _ [IH IHf] Hstep]; [split; [reflexivity|discriminate]|].
  unfold step in Hstep.
  destruct (phase c) eqn:Hp; try discriminate.
  - injection Hstep as <-.
    destruct (max =? 0)%nat; loop_simpl; split; congruence.
  - injection Hstep as <-. loop_simpl. split; intros; lia.
  - specialize (IHf eq_refl).
    pose proof (fix_all_length (wc c) (findings c)) as Hl.
    destruct (fix_all (wc c) (findings c)) as [w' attempts].
    injection Hstep as <-. loop_simpl. simpl in Hl.
    rewrite length_app, Hl, IH. split; [lia | discriminate].
  - cbv zeta in Hstep. injection Hstep as <-. loop_simpl.
    split; [|destruct (evaluate _ _); try destruct (_ <? _)%nat; discriminate].
    destruct (evaluate _ _); try destruct (_ <? _)%nat; exact IH.
Qed.

End LoopFacts.

(** ** The loop on the sample engines *)

Section Scenarios.

Import HealingLoop.

Let healed := heal (engine := healing_engine).
Let stuck := heal (engine := stuck_engine).

(** One unused import and nothing else: one iteration, one LINTING
    finding, one Fixed fix, pipeline PASSED. *)
Example scenario_A :
  let c := healed 5%nat ["import os"%string] in
  phase c = DONE_PASSED /\ iteration c = 1%nat /\
  failures_detected c = 1%nat /\
  map status (all_fixes c) = [Fixed] /\
  map bug_type (all_fixes c) = [LINTING] /\
  map run_status (runs c) = [PASSED].
Proof. vm_compute. repeat split. Qed.

(** A finding that cannot be rewritten: a Failed fix in every
    iteration, the whole budget used, EXHAUSTED. *)
Example scenario_B :
  let c := stuck 3%nat ["import os"%string] in
  phase c = DONE_EXHAUSTED /\ iteration c = 3%nat /\
  map status (all_fixes c) = [Failed; Failed; Failed] /\
  map run_status (runs c) = [FAILED; FAILED; FAILED].
Proof. vm_compute. repeat split. Qed.

(** No budget: no scan, no run, no fix, EXHAUSTED. *)
Example scenario_C :
  let c := stuck 0%nat ["import os"%string] in
  phase c = DONE_EXHAUSTED /\ iteration c = 0%nat /\
  runs c = [] /\ all_fixes c = [] /\ failures_detected c = 0%nat.
Proof. vm_compute. repeat split. Qed.

End Scenarios.

Lemma evaluate_verdict_witness :
  HealingLoop.evaluate (engine := HealingLoop.healing_engine)
    ["x = 1"%string] [sample_fix] = PASSED.
Proof.
  apply (proj1 (evaluate_verdict (engine := HealingLoop.healing_engine)
                  ["x = 1"%string] [sample_fix])).
  split.
  - reflexivity.
  - repeat constructor. simpl. discriminate.
Defined.

Lemma pipeline_runs_invariant_witness :
  let c := HealingLoop.heal (engine := HealingLoop.stuck_engine) 3
             ["import os"%string] in
  List.length (HealingLoop.runs c) = HealingLoop.iteration c /\
  (List.length (HealingLoop.runs c) <= 3)%nat.
Proof.
  intro c.
  destruct (pipeline_runs_invariant (engine := HealingLoop.stuck_engine)
              3 ["import os"%string] c) as (Hlen & Hle & _).
  - apply heal_reachable.
  - split; [exact Hlen | exact Hle].
Defined.

Lemma healing_loop_terminates_witness :
  HealingLoop.run_loop (engine := HealingLoop.stuck_engine) 3 20
    (HealingLoop.init ["import os"%string]) =
  HealingLoop.heal (engine := HealingLoop.stuck_engine) 3
    ["import os"%string].
Proof.
  apply (healing_loop_terminates (engine := HealingLoop.stuck_engine)
           3 ["import os"%string]).
  vm_compute. lia.
Defined.

(** * Part III: more of the dashboard *)

(** ** Outcomes of the submit handler *)

Section HandlerOutcome.

Variable server : Server.

Lemma valid_form_guard fd :
  valid_form fd ->
  falsy (repoUrl fd) || falsy (teamName fd) || falsy (leaderName fd) = false.
Proof.
  intros (H1 & H2 & H3). apply falsy_nonempty in H1, H2, H3.
  now rewrite H1, H2, H3.
Qed.

Lemma guard_valid_form fd :
  falsy (repoUrl fd) || falsy (teamName fd) || falsy (leaderName fd) = false ->
  valid_form fd.
Proof.
  rewrite !orb_false_iff, !falsy_nonempty. unfold valid_form. tauto.
Qed.

Lemma or_else_nonempty detail fallback :
  fallback <> EmptyString -> or_else detail fallback <> EmptyString.
Proof.
  intro H. unfold or_else. destruct detail as [s|]; [|assumption].
  destruct (falsy s) eqn:E; [assumption | now apply falsy_nonempty].
Qed.

(** Past the guard the handler is its four first effects, the request
    being the fourth, and then what [settle] does with the answer. *)
Lemma handleRun_valid st :
  valid_form (formData st) ->
  handleRun server st =
  (tt,
   state_of (settle (server analyze_url (body_of (formData st)))
               {| formData := formData st; loading := true;
                  results := None; error := EmptyString |}),
   [SetError EmptyString; SetLoading true; SetResults None;
    Post analyze_url (body_of (formData st))]
   ++ log_of (settle (server analyze_url (body_of (formData st)))
                {| formData := formData st; loading := true;
                   results := None; error := EmptyString |})).
Proof.
  intro Hv. apply valid_form_guard in Hv.
  destruct (handleRun_accepts server st Hv) as [Hlog Hst].
  cbv zeta in Hlog, Hst. rewrite <- Hlog, <- Hst.
  destruct (handleRun server st) as [[[] s] l]. reflexivity.
Qed.

(** A run that the server answers: the answer is stored and shown, no
    error is left, the button is enabled again, and the handler did
    exactly six things, the request being the fourth. *)
Theorem handleRun_success st data :
  valid_form (formData st) ->
  server analyze_url (body_of (formData st)) = Resolved data ->
  handleRun server st =
  (tt,
   {| formData := formData st; loading := false; results := Some data;
      error := EmptyString |},
   [SetError EmptyString; SetLoading true; SetResults None;
    Post analyze_url (body_of (formData st));
    SetResults (Some data); SetLoading false]).
Proof.
  intros Hv Hs. rewrite (handleRun_valid st Hv), Hs. reflexivity.
Qed.



(** ** Editing the form, then running *)

Lemma posts_of_valid st :
  valid_form (formData st) ->
  posts (log_of (handleRun server st)) =
  [Post analyze_url (body_of (formData st))].
Proof.
  intro Hv. rewrite (handleRun_valid st Hv).
  unfold log_of at 1. cbn [snd]. unfold posts. rewrite filter_app.
  change (filter is_post (log_of ?x)) with (posts (log_of x)).
  rewrite settle_no_post. reflexivity.
Qed.

Lemma posts_of_invalid st :
  ~ valid_form (formData st) ->
  handleRun server st = setError validation_message st.
Proof.
  intro Hn. apply handleRun_rejects.
  destruct (falsy (repoUrl (formData st)) || falsy (teamName (formData st))
            || falsy (leaderName (formData st))) eqn:G; [reflexivity|].
  exfalso. apply Hn. now apply guard_valid_form.
Qed.

(** Typing a repository URL, a team name and a leader name, none of
    them empty, and pressing Run sends one request that carries the
    three texts as typed and the token as it stood. *)
Theorem typed_form_is_posted st url team leader :
  url <> EmptyString -> team <> EmptyString -> leader <> EmptyString ->
  posts (log_of (handleRun server
           (onChange LeaderNameField leader
              (onChange TeamNameField team
                 (onChange RepoUrlField url st))))) =
  [Post analyze_url
     {| req_repo_url := url; req_team_name := team;
        req_leader_name := leader;
        req_github_token := githubToken (formData st) |}].
Proof.
  intros Hu Ht Hl. rewrite posts_of_valid; [reflexivity|].
  unfold valid_form. cbn. auto.
Qed.

(** Edits of two different inputs can be made in either order, a later
    edit of one input replaces the earlier one, and an edit changes
    nothing but its own input. *)
Theorem onChange_composes st k1 k2 v1 v2 :
  (k1 <> k2 ->
   onChange k1 v1 (onChange k2 v2 st) = onChange k2 v2 (onChange k1 v1 st)) /\
  onChange k1 v1 (onChange k1 v2 st) = onChange k1 v1 st /\
  loading (onChange k1 v1 st) = loading st /\
  results (onChange k1 v1 st) = results st /\
  error (onChange k1 v1 st) = error st.
Proof.
  split; [|split; [|repeat split]].
  - intro Hk. destruct k1, k2; try congruence; reflexivity.
  - destruct k1; reflexivity.
Qed.

(** Emptying any of the three required inputs makes the next Run stop
    at the guard, whatever the other inputs hold; the token input has
    no say: editing it never changes whether a request goes out. *)
Theorem guard_reads_required_only st :
  (forall key, required key = true ->
     let out := handleRun server (onChange key EmptyString st) in
     posts (log_of out) = [] /\
     error (state_of out) = validation_message) /\
  (forall v,
     posts (log_of (handleRun server (onChange GithubTokenField v st))) = []
     <-> posts (log_of (handleRun server st)) = []).
Proof.
  split.
  - intros key Hk out. subst out.
    rewrite posts_of_invalid; [split; reflexivity|].
    unfold valid_form. destruct key; cbn; try discriminate; tauto.
  - intro v.
    assert (Hsame : valid_form (formData (onChange GithubTokenField v st))
                    <-> valid_form (formData st))
      by (unfold valid_form; cbn; tauto).
    destruct (falsy (repoUrl (formData st)) || falsy (teamName (formData st))
              || falsy (leaderName (formData st))) eqn:G.
    + assert (Hn : ~ valid_form (formData st)).
      { intro Hv. apply valid_form_guard in Hv. congruence. }
      rewrite (posts_of_invalid st Hn).
      rewrite posts_of_invalid by (rewrite Hsame; exact Hn).
      split; reflexivity.
    + apply guard_valid_form in G.
      rewrite (posts_of_valid st G).
      rewrite posts_of_valid by (apply Hsame; exact G).
      split; discriminate.
Qed.

End HandlerOutcome.

Lemma handleRun_success_witness :
  log_of (handleRun sample_server (with_form initial_state sample_form)) =
  [SetError EmptyString; SetLoading true; SetResults None;
   Post analyze_url (body_of sample_form);
   SetResults (Some sample_result); SetLoading false].
Proof.
  rewrite (handleRun_success sample_server
             (with_form initial_state sample_form) sample_result).
  - reflexivity.
  - unfold valid_form. simpl. repeat split; discriminate.
  - reflexivity.
Defined.



Lemma typed_form_is_posted_witness :
  posts (log_of (handleRun sample_server
           (onChange LeaderNameField "John Doe"
              (onChange TeamNameField "RIFT ORGANISERS"
                 (onChange RepoUrlField "https://github.com/username/repo"
                    initial_state))))) =
  [Post analyze_url (body_of sample_form)].
Proof.
  apply (typed_form_is_posted sample_server initial_state); discriminate.
Defined.

Lemma onChange_composes_witness :
  onChange RepoUrlField "a" (onChange TeamNameField "b" initial_state) =
  onChange TeamNameField "b" (onChange RepoUrlField "a" initial_state).
Proof.
  apply (proj1 (onChange_composes initial_state RepoUrlField TeamNameField
                  "a" "b")).
  discriminate.
Defined.

Lemma guard_reads_required_only_witness :
  posts (log_of (handleRun sample_server
                   (onChange TeamNameField EmptyString
                      (with_form initial_state sample_form)))) = [].
Proof.
  apply (proj1 (guard_reads_required_only sample_server
                  (with_form initial_state sample_form)) TeamNameField).
  reflexivity.
Defined.

(** ** The score on the chart *)

Lemma score_cases (r : AnalysisResult) :
  let f := total_fixes_applied r in
  let b := if speed_bar_green r then 10 else 0 in
  (f <= 20 /\ calculateScore (Some r) = 100 + b) \/
  (20 < f /\ calculateScore (Some r) = Z.max (100 + b - (f - 20) * 2) 0).
Proof.
  unfold calculateScore, speed_bar_green.
  destruct (Qltb (total_time_taken r) 300);
    destruct (Z.gtb_spec (total_fixes_applied r) 20); cbv zeta;
    [right | left | right | left]; split; lia.
Qed.



(** The chart shows a Base bar of 100 and a Speed bar of 10, green when
    the bonus was earned, and nothing for the penalty: the total equals
    what the bars add up to exactly when at most 20 fixes were applied,
    and is below it otherwise. *)
Theorem breakdown_matches_total (r : AnalysisResult) :
  calculateScore (Some r) <= breakdown_sum r /\
  (calculateScore (Some r) = breakdown_sum r <->
   total_fixes_applied r <= 20).
Proof.
  unfold breakdown_sum.
  destruct (score_cases r) as [[Hf ->] | [Hf ->]]; cbv zeta;
    destruct (speed_bar_green r); split; try lia; split; lia.
Qed.

Lemma breakdown_matches_total_witness :
  calculateScore (Some sample_result) = breakdown_sum sample_result.
Proof.
  apply (proj2 (breakdown_matches_total sample_result)).
  simpl. lia.
Defined.

(** ** The bug type badge *)

(** Each of the five bug types has a colour of its own and none has the
    default gray, which is what every other text gets: the colour of a
    known bug type tells which one it is. *)
Theorem getBugTypeColor_identifies :
  (forall s, getBugTypeColor s = default_color <-> ~ In s known_bug_types) /\
  (forall a b, In a known_bug_types ->
               getBugTypeColor a = getBugTypeColor b -> a = b) /\
  (forall t, In (bug_type_name t) known_bug_types).
Proof.
  split; [|split].
  - intro s. unfold getBugTypeColor, known_bug_types, default_color.
    repeat match goal with
           | |- context [String.eqb s ?c] =>
               destruct (String.eqb_spec s c) as [->|?];
               [split; [discriminate
                       | intro H; exfalso; apply H; simpl; auto 10]|]
           end.
    split; [|reflexivity].
    intros _ H. simpl in H. intuition congruence.
  - intros a b Ha. unfold getBugTypeColor.
    simpl in Ha.
    destruct Ha as [<-|[<-|[<-|[<-|[<-|[]]]]]]; cbn [String.eqb];
      cbn;
      repeat match goal with
             | |- context [String.eqb b ?c] =>
                 destruct (String.eqb_spec b c) as [->|?];
                 [first [reflexivity | discriminate]|]
             end;
      discriminate.
  - intros []; simpl; auto 10.
Qed.

Lemma getBugTypeColor_identifies_witness :
  "SYNTAX"%string = bug_type_name SYNTAX.
Proof.
  apply (proj1 (proj2 getBugTypeColor_identifies)).
  - simpl. auto.
  - reflexivity.
Defined.

(** ** Timeline and summary *)

Lemma count_partition (runs : list PipelineRun) :
  (List.length (filter (fun x => RunStatus_eqb (run_status x) PASSED) runs)
   + List.length (filter (fun x => RunStatus_eqb (run_status x) FAILED) runs)
   + List.length (filter (fun x => RunStatus_eqb (run_status x) RUNNING) runs)
   = List.length runs)%nat.
Proof.
  induction runs as [|x rest IH]; [reflexivity|].
  simpl. destruct (run_status x); simpl; lia.
Qed.

Lemma no_running_iff (runs : list PipelineRun) :
  List.length (filter (fun x => RunStatus_eqb (run_status x) RUNNING) runs)
  = 0%nat
  <-> Forall (fun x => run_status x <> RUNNING) runs.
Proof.
  induction runs as [|x rest IH]; simpl.
  - split; [constructor | reflexivity].
  - destruct (run_status x) eqn:E; simpl; rewrite ?IH.
    + split; [intro H; constructor; [congruence | assumption]
             | intro H; now inversion H].
    + split; [intro H; constructor; [congruence | assumption]
             | intro H; now inversion H].
    + split; [discriminate | intro H; inversion H; congruence].
Qed.

Lemma or_num_zero (n : Z) : or_num (Some n) 0 = n.
Proof.
  unfold or_num. destruct (Z.eqb_spec n 0); congruence.
Qed.

(** The Passed and Failed figures of the summary never add up to more
    than the number of runs on the timeline, and to exactly that number
    if and only if every run is PASSED or FAILED; with no run list both
    are 0. *)
Theorem summary_counts (r : AnalysisResult) :
  (forall runs, cicd_runs r = Some runs ->
     summary_passed r + summary_failed r <= Z.of_nat (List.length runs) /\
     (summary_passed r + summary_failed r = Z.of_nat (List.length runs) <->
      Forall (fun x => run_status x <> RUNNING) runs)) /\
  (cicd_runs r = None -> summary_passed r = 0 /\ summary_failed r = 0).
Proof.
  unfold summary_passed, summary_failed, summary_count. split.
  - intros runs ->. cbn [option_map]. rewrite !or_num_zero.
    rewrite <- no_running_iff.
    pose proof (count_partition runs). lia.
  - intros ->. split; reflexivity.
Qed.

Lemma summary_counts_witness :
  summary_passed sample_result + summary_failed sample_result <= 1.
Proof.
  apply (proj1 (summary_counts sample_result)
           [{| run_iteration := 1; run_status := PASSED;
               timestamp := 1771000000 |}]).
  reflexivity.
Defined.

Lemma combine_seq_fst {A B} (h : nat -> B) (l : list A) (s : nat) :
  map (fun '(i, _) => h i) (combine (seq s (List.length l)) l) =
  map h (seq s (List.length l)).
Proof.
  revert s. induction l as [|x rest IH]; intro s; simpl;
    [reflexivity | now rewrite IH].
Qed.

Lemma combine_seq_snd {A B} (g : A -> B) (l : list A) (s : nat) :
  map (fun '(_, x) => g x) (combine (seq s (List.length l)) l) = map g l.
Proof.
  revert s. induction l as [|x rest IH]; intro s; simpl;
    [reflexivity | now rewrite IH].
Qed.

Lemma connectors_shape (n : nat) :
  map (has_connector (S n)) (seq 0 (S n)) = repeat true n ++ [false].
Proof.
  rewrite seq_S, map_app. cbn [map Nat.add]. f_equal.
  - transitivity (map (fun _ : nat => true) (seq 0 n)).
    + apply map_ext_in. intros i Hi. apply in_seq in Hi.
      unfold has_connector. apply Z.ltb_lt. lia.
    + now rewrite map_const, length_seq.
  - unfold has_connector. f_equal. apply Z.ltb_ge. lia.
Qed.

Lemma timeline_entries_length (r : AnalysisResult) :
  List.length (timeline_entries r) =
  match cicd_runs r with
  | Some runs => List.length runs
  | None => 0%nat
  end.
Proof.
  unfold timeline_entries. destruct (cicd_runs r) as [runs|]; [|reflexivity].
  rewrite length_map, length_combine, length_seq. apply Nat.min_id.
Qed.

(** The timeline shows the runs in the order of the list, numbers them
    1, 2, ... by position whatever iteration each run records for
    itself, and draws a connector after every entry but the last. *)
Theorem timeline_layout (r : AnalysisResult) (runs : list PipelineRun) :
  cicd_runs r = Some runs ->
  map (fun e => fst (fst e)) (timeline_entries r) =
  map Z.of_nat (seq 1 (List.length runs)) /\
  map (fun e => snd (fst e)) (timeline_entries r) = map run_status runs /\
  map snd (timeline_entries r) =
  match runs with
  | [] => []
  | _ :: rest => repeat true (List.length rest) ++ [false]
  end.
Proof.
  intro Hr. unfold timeline_entries. rewrite Hr. rewrite !map_map.
  split; [|split].
  - rewrite <- seq_shift, map_map.
    rewrite <- (combine_seq_fst (fun i => Z.of_nat (S i)) runs 0).
    apply map_ext. intros [i x]. cbn [fst]. lia.
  - rewrite <- (combine_seq_snd run_status runs 0).
    apply map_ext. intros [i x]. reflexivity.
  - destruct runs as [|x rest]; [reflexivity|].
    rewrite <- connectors_shape.
    change (S (List.length rest)) with (List.length (x :: rest)).
    rewrite <- (combine_seq_fst (has_connector (List.length (x :: rest)))
                  (x :: rest) 0).
    apply map_ext. intros [i y]. reflexivity.
Qed.

Lemma timeline_layout_witness :
  map (fun e => fst (fst e)) (timeline_entries sample_result) =
  map Z.of_nat (seq 1 1).
Proof.
  apply (timeline_layout sample_result
           [{| run_iteration := 1; run_status := PASSED;
               timestamp := 1771000000 |}]).
  reflexivity.
Defined.

(** The denominator of the iteration badge is never 0: it is the number
    of entries on the timeline when the timeline is drawn and 5 when it
    is not.  The Total of the summary is [total_iterations] unless that
    is 0, and then the number of entries on the timeline. *)
Theorem badge_and_total (r : AnalysisResult) :
  0 < snd (iterations_badge r) /\
  (timeline_shown r = true ->
   snd (iterations_badge r) = Z.of_nat (List.length (timeline_entries r))) /\
  (timeline_shown r = false ->
   snd (iterations_badge r) = 5 /\ timeline_entries r = []) /\
  (total_iterations r <> 0 -> summary_total r = total_iterations r) /\
  (total_iterations r = 0 ->
   summary_total r = Z.of_nat (List.length (timeline_entries r))).
Proof.
  rewrite timeline_entries_length.
  split; [|split; [|split; [|split]]].
  - unfold iterations_badge, or_default, default_max_iterations.
    cbn [snd]. destruct (cicd_runs r) as [runs|]; [|reflexivity].
    destruct (Z.eqb_spec (Z.of_nat (List.length runs)) 0); lia.
  - unfold iterations_badge, timeline_shown. cbn [snd].
    destruct (cicd_runs r) as [runs|]; [|discriminate].
    intro H. apply Z.ltb_lt in H. now apply or_default_pos.
  - unfold iterations_badge, timeline_shown, timeline_entries. cbn [snd].
    destruct (cicd_runs r) as [runs|]; [|split; reflexivity].
    intro H. apply Z.ltb_ge in H.
    destruct runs as [|x rest]; [split; reflexivity|].
    cbn [List.length] in H. lia.
  - intro H. unfold summary_total, js_or.
    destruct (Z.eqb_spec (total_iterations r) 0); [contradiction|].
    apply or_num_zero.
  - intro H. unfold summary_total, js_or, runs_length. rewrite H.
    cbn [Z.eqb]. destruct (cicd_runs r) as [runs|]; cbn [option_map].
    + apply or_num_zero.
    + reflexivity.
Qed.

Lemma badge_and_total_witness :
  snd (iterations_badge bare_result) = 5 /\
  summary_total bare_result = 5.
Proof.
  split.
  - apply (proj1 (proj2 (proj2 (badge_and_total bare_result)))).
    reflexivity.
  - apply (proj1 (proj2 (proj2 (proj2 (badge_and_total bare_result))))).
    simpl. discriminate.
Defined.
